(** * The JNI bridge of ghostty-android and the terminal core it calls

    [android/app/src/main/cpp/ghostty_bridge.c] marshals Java calls into
    libghostty-vt: it creates and frees key encoders, builds one key event
    per call, has it encoded into a 256 byte stack buffer, and asks the
    paste classifier for a verdict.

    The bridge is embedded as it is written, in a small state monad whose
    state holds the key events that are alive and the log of every call
    that leaves the bridge (core, JNI environment, Android log).  What the
    bridge cannot see (the answers of the core, of the JVM and the bytes
    of uninitialised stack) is a [Platform], and the statements about the
    bridge hold for every platform.

    libghostty-vt itself is not among the sources.  Module [Core] models
    its key encoder and its paste classifier from the specification. *)

From Stdlib Require Import ZArith NArith List Bool String Lia.
From Stdlib.Strings Require Import Byte.
Import ListNotations.

Set Implicit Arguments.

(** ** Bytes and C strings *)

Definition byte := Byte.byte.

Definition byte_val (b : byte) : N := Byte.to_N b.

Definition NUL : byte := Byte.x00.
Definition ESC : byte := Byte.x1b.

Definition is_nul (b : byte) : bool := Byte.eqb b NUL.

(** The bytes a [const char *] denotes: what lies before the first NUL. *)
Fixpoint c_string (mem : list byte) : list byte :=
  match mem with
  | [] => []
  | b :: rest => if is_nul b then [] else b :: c_string rest
  end.

Definition strlen (mem : list byte) : nat := List.length (c_string mem).

(** Does [data] start with the bytes [pat]? *)
Fixpoint starts_with (pat data : list byte) : bool :=
  match pat, data with
  | [], _ => true
  | _ :: _, [] => false
  | p :: pat', d :: data' => Byte.eqb p d && starts_with pat' data'
  end.

(** ** JNI values *)

Module Jni.

(** A [jstring] is a reference to a Java string or NULL.  A Java string
    is known to native code by the modified UTF-8 bytes the JVM hands
    out for it. *)
Definition JavaString := list byte.
Definition jstring := option JavaString.
Definition NULL : jstring := None.

Definition jboolean := Z.
Definition JNI_TRUE : jboolean := 1%Z.
Definition JNI_FALSE : jboolean := 0%Z.

Definition jint := Z.
Definition jlong := Z.

(** [(uintptr_t)handle] and [(jlong)(uintptr_t)encoder] on a 64 bit
    target: the same 64 bits read unsigned, respectively signed. *)
Definition uintptr_of_jlong (h : jlong) : Z := (h mod 2 ^ 64)%Z.

Definition jlong_of_uintptr (p : Z) : jlong :=
  let u := (p mod 2 ^ 64)%Z in
  if (u <? 2 ^ 63)%Z then u else (u - 2 ^ 64)%Z.

End Jni.
Import Jni.
Bind Scope Z_scope with jlong jint jboolean.

(** ** The C interface of libghostty-vt, as the bridge uses it *)

Module Vt.

(** Modelled from the spec: [ghostty/vt.h] is not among the sources.
    The bridge only tests a result against [GHOSTTY_SUCCESS]; the
    failures are the error taxonomy of the specification (section 7). *)
Inductive CoreError := ConfigError | EncodeError | BufferTooSmall.

Inductive GhosttyResult :=
| GHOSTTY_SUCCESS
| GHOSTTY_ERROR (e : CoreError).

Definition is_success (r : GhosttyResult) : bool :=
  match r with GHOSTTY_SUCCESS => true | GHOSTTY_ERROR _ => false end.

(** Modelled from the spec: the bridge names [GHOSTTY_KEY_ACTION_PRESS]
    only; the specification lists the actions press, release, repeat. *)
Inductive GhosttyKeyAction :=
| GHOSTTY_KEY_ACTION_PRESS
| GHOSTTY_KEY_ACTION_RELEASE
| GHOSTTY_KEY_ACTION_REPEAT.

(** A key event object: one field per setter the bridge calls.  Key and
    modifiers are kept as the integers the bridge casts from [jint]. *)
Record GhosttyKeyEvent := mkEvent {
  ev_action : GhosttyKeyAction;
  ev_key : Z;
  ev_mods : Z;
  ev_utf8 : option (list byte)
}.

Definition with_action (a : GhosttyKeyAction) (e : GhosttyKeyEvent) :=
  mkEvent a (ev_key e) (ev_mods e) (ev_utf8 e).
Definition with_key (k : Z) (e : GhosttyKeyEvent) :=
  mkEvent (ev_action e) k (ev_mods e) (ev_utf8 e).
Definition with_mods (m : Z) (e : GhosttyKeyEvent) :=
  mkEvent (ev_action e) (ev_key e) m (ev_utf8 e).
Definition with_utf8 (s : list byte) (e : GhosttyKeyEvent) :=
  mkEvent (ev_action e) (ev_key e) (ev_mods e) (Some s).

End Vt.
Import Vt.

(** ** The world the bridge runs in *)

Inductive LogPriority := ANDROID_LOG_DEBUG | ANDROID_LOG_ERROR.

(** Every call that leaves the bridge, with its arguments and its answer. *)
Inductive Call :=
| CLog (prio : LogPriority) (fmt : string)
| CKeyEncoderNew (res : GhosttyResult) (encoder : Z)
| CKeyEncoderFree (encoder : Z)
| CKeyEventNew (res : GhosttyResult) (event : Z)
| CKeyEventSetAction (event : Z) (a : GhosttyKeyAction)
| CKeyEventSetKey (event : Z) (k : Z)
| CKeyEventSetMods (event : Z) (m : Z)
| CKeyEventSetUtf8 (event : Z) (s : list byte)
| CKeyEncoderEncode (encoder : Z) (submitted : option GhosttyKeyEvent)
    (capacity : nat) (res : GhosttyResult) (out_len : nat)
| CKeyEventFree (event : Z)
| CPasteIsSafe (data : list byte) (verdict : bool)
| CGetStringUTFChars (s : JavaString) (chars : option (list byte))
| CReleaseStringUTFChars (s : JavaString)
| CNewStringUTF (bytes : list byte) (res : jstring).

Record World := mkWorld {
  events : list (Z * GhosttyKeyEvent);   (* key events alive, by address *)
  calls : list Call                      (* newest first *)
}.

Definition record_call (c : Call) (w : World) : World :=
  mkWorld (events w) (c :: calls w).

(** The calls made between two worlds, newest first. *)
Definition calls_since (w w' : World) : list Call :=
  firstn (List.length (calls w') - List.length (calls w)) (calls w').

Fixpoint lookup_event (p : Z) (evs : list (Z * GhosttyKeyEvent))
  : option GhosttyKeyEvent :=
  match evs with
  | [] => None
  | (q, e) :: rest => if (p =? q)%Z then Some e else lookup_event p rest
  end.

Fixpoint remove_event (p : Z) (evs : list (Z * GhosttyKeyEvent))
  : list (Z * GhosttyKeyEvent) :=
  match evs with
  | [] => []
  | (q, e) :: rest =>
      if (p =? q)%Z then remove_event p rest else (q, e) :: remove_event p rest
  end.

Definition store_event (p : Z) (e : GhosttyKeyEvent)
  (evs : list (Z * GhosttyKeyEvent)) : list (Z * GhosttyKeyEvent) :=
  (p, e) :: remove_event p evs.

Definition update_event (p : Z) (f : GhosttyKeyEvent -> GhosttyKeyEvent)
  (evs : list (Z * GhosttyKeyEvent)) : list (Z * GhosttyKeyEvent) :=
  match lookup_event p evs with
  | Some e => store_event p (f e) evs
  | None => evs
  end.

(** What the bridge does not decide: the answers of the core and of the
    JVM, and the bytes that an uninitialised stack array holds.  Each
    answer may depend on everything that happened before. *)
Record Platform := mkPlatform {
  encoder_new : World -> GhosttyResult * Z;
  event_new : World -> GhosttyResult * Z;
  event_init : GhosttyKeyEvent;
  encoder_encode :
    Z -> GhosttyKeyEvent -> list byte -> nat -> World ->
    GhosttyResult * list byte * nat;
  paste_is_safe : list byte -> bool;
  string_utf_chars : JavaString -> World -> option (list byte);
  new_string_utf : list byte -> World -> jstring;
  stack_byte : World -> nat -> byte
}.

(** ** The monad of bridge code *)

Definition M (A : Type) : Type := World -> A * World.

Definition ret {A} (a : A) : M A := fun w => (a, w).

Definition bind {A B} (m : M A) (k : A -> M B) : M B :=
  fun w => let (a, w') := m w in k a w'.

Declare Scope bridge_scope.
Delimit Scope bridge_scope with bridge.
Notation "x <- m ;; k" := (bind m (fun x => k))
  (at level 61, m at next level, right associativity) : bridge_scope.
Notation "' pat <- m ;; k" := (bind m (fun x => match x with pat => k end))
  (at level 61, pat pattern, m at next level, right associativity) : bridge_scope.
Notation "m ;; k" := (bind m (fun _ => k))
  (at level 61, right associativity) : bridge_scope.
Open Scope bridge_scope.

Definition tell (c : Call) : M unit := fun w => (tt, record_call c w).

(** ** The bridge, function by function *)

Section Bridge.

Variable P : Platform.

(** *** The calls the bridge makes *)

Definition LOGD (fmt : string) : M unit := tell (CLog ANDROID_LOG_DEBUG fmt).
Definition LOGE (fmt : string) : M unit := tell (CLog ANDROID_LOG_ERROR fmt).

Definition ghostty_key_encoder_new : M (GhosttyResult * Z) :=
  fun w =>
    let (res, encoder) := encoder_new P w in
    ((res, encoder), record_call (CKeyEncoderNew res encoder) w).

Definition ghostty_key_encoder_free (encoder : Z) : M unit :=
  tell (CKeyEncoderFree encoder).

Definition ghostty_key_event_new : M (GhosttyResult * Z) :=
  fun w =>
    let (res, event) := event_new P w in
    let evs := if is_success res
               then store_event event (event_init P) (events w)
               else events w in
    ((res, event), mkWorld evs (CKeyEventNew res event :: calls w)).

Definition set_field (event : Z) (f : GhosttyKeyEvent -> GhosttyKeyEvent)
  (c : Call) : M unit :=
  fun w => (tt, mkWorld (update_event event f (events w)) (c :: calls w)).

Definition ghostty_key_event_set_action (event : Z) (a : GhosttyKeyAction) :=
  set_field event (with_action a) (CKeyEventSetAction event a).

Definition ghostty_key_event_set_key (event : Z) (k : Z) :=
  set_field event (with_key k) (CKeyEventSetKey event k).

Definition ghostty_key_event_set_mods (event : Z) (m : Z) :=
  set_field event (with_mods m) (CKeyEventSetMods event m).

(** [set_utf8 (event, utf8, len)]: the first [len] bytes at [utf8].  The
    event object is given the bytes themselves; whether the core copies
    them or keeps the pointer is not visible in the sources. *)
Definition ghostty_key_event_set_utf8 (event : Z) (utf8 : list byte)
  (len : nat) :=
  set_field event (with_utf8 (firstn len utf8))
    (CKeyEventSetUtf8 event (firstn len utf8)).

Definition ghostty_key_event_free (event : Z) : M unit :=
  fun w =>
    (tt, mkWorld (remove_event event (events w))
                 (CKeyEventFree event :: calls w)).

(** [encode (encoder, event, buffer, capacity, &output_len)]: the answer
    is the result code, the buffer as the core leaves it and the length
    it reports.  An event that is not alive is refused. *)
Definition ghostty_key_encoder_encode (encoder event : Z)
  (buffer : list byte) (capacity : nat)
  : M (GhosttyResult * list byte * nat) :=
  fun w =>
    let submitted := lookup_event event (events w) in
    let '(res, buffer', out_len) :=
      match submitted with
      | Some e => encoder_encode P encoder e buffer capacity w
      | None => (GHOSTTY_ERROR EncodeError, buffer, 0)
      end in
    ((res, buffer', out_len),
     record_call (CKeyEncoderEncode encoder submitted capacity res out_len) w).

Definition ghostty_paste_is_safe (data : list byte) (len : nat) : M bool :=
  fun w =>
    let verdict := paste_is_safe P (firstn len data) in
    (verdict, record_call (CPasteIsSafe (firstn len data) verdict) w).

Definition GetStringUTFChars (s : JavaString) : M (option (list byte)) :=
  fun w =>
    let chars := string_utf_chars P s w in
    (chars, record_call (CGetStringUTFChars s chars) w).

Definition ReleaseStringUTFChars (s : JavaString) : M unit :=
  tell (CReleaseStringUTFChars s).

(** [NewStringUTF (env, p)] reads the C string at [p]. *)
Definition NewStringUTF (mem : list byte) : M jstring :=
  fun w =>
    let res := new_string_utf P (c_string mem) w in
    (res, record_call (CNewStringUTF (c_string mem) res) w).

(** [char buffer[n];] without initialiser: whatever the stack holds. *)
Definition uninitialized (n : nat) : M (list byte) :=
  fun w => (map (stack_byte P w) (seq 0 n), w).

(** *** The JNI methods *)

Definition nativeInit : M jboolean :=
  LOGD "Initializing libghostty-vt" ;;
  ret JNI_TRUE.

Definition nativeCreateKeyEncoder : M jlong :=
  '(result, encoder) <- ghostty_key_encoder_new ;;
  if negb (is_success result) then
    LOGE "Failed to create key encoder: %d" ;;
    ret 0%Z
  else
    LOGD "Created key encoder: %p" ;;
    ret (jlong_of_uintptr encoder).

Definition nativeDestroyKeyEncoder (handle : jlong) : M unit :=
  let encoder := uintptr_of_jlong handle in
  if (encoder =? 0)%Z then ret tt
  else
    ghostty_key_encoder_free encoder ;;
    LOGD "Destroyed key encoder: %p".

(** The block [if (text != NULL) { ... }] of [nativeEncodeKey]. *)
Definition set_text (event : Z) (text : jstring) : M unit :=
  match text with
  | None => ret tt
  | Some s =>
      utf8 <- GetStringUTFChars s ;;
      match utf8 with
      | None => ret tt
      | Some chars =>
          ghostty_key_event_set_utf8 event chars (strlen chars) ;;
          ReleaseStringUTFChars s
      end
  end.

Definition nativeEncodeKey (encoder_handle : jlong) (key_code modifiers : jint)
  (text : jstring) : M jstring :=
  let encoder := uintptr_of_jlong encoder_handle in
  if (encoder =? 0)%Z then
    LOGE "Invalid encoder handle" ;;
    ret NULL
  else
    '(result, event) <- ghostty_key_event_new ;;
    if negb (is_success result) then
      LOGE "Failed to create key event" ;;
      ret NULL
    else
      ghostty_key_event_set_action event GHOSTTY_KEY_ACTION_PRESS ;;
      ghostty_key_event_set_key event key_code ;;
      ghostty_key_event_set_mods event modifiers ;;
      set_text event text ;;
      buffer <- uninitialized 256 ;;
      '(result, buffer, output_len) <-
        ghostty_key_encoder_encode encoder event buffer 256 ;;
      ghostty_key_event_free event ;;
      if negb (is_success result) then
        LOGE "Failed to encode key event: %d" ;;
        ret NULL
      else if (output_len =? 0)%nat then
        ret NULL
      else
        jresult <- NewStringUTF buffer ;;
        LOGD "Encoded key: code=%d, mods=%d, output_len=%zu" ;;
        ret jresult.

Definition nativeIsPasteSafe (data : jstring) : M jboolean :=
  match data with
  | None => ret JNI_FALSE
  | Some s =>
      utf8 <- GetStringUTFChars s ;;
      match utf8 with
      | None => ret JNI_FALSE
      | Some chars =>
          let len := strlen chars in
          is_safe <- ghostty_paste_is_safe chars len ;;
          ReleaseStringUTFChars s ;;
          LOGD "Paste safety check: %s" ;;
          ret (if is_safe then JNI_TRUE else JNI_FALSE)
      end
  end.

Definition nativeGetVersion : M jstring :=
  NewStringUTF (list_byte_of_string "libghostty-vt 0.1.0").

End Bridge.

(** ** The core: key encoder and paste classifier *)

Module Core.

Local Open Scope byte_scope.

(** *** Vocabulary *)

(** Modelled from the spec: the key vocabulary of libghostty-vt is not
    among the sources.  Section 3 lists letters, digits, function keys,
    navigation keys and the modifier keys; the model keeps the keys for
    which the specification states an encoding: letters and digits
    (text), the arrow keys (a fixed CSI sequence) and the modifier keys
    (no sequence of their own). *)
Inductive Letter :=
| LetterA | LetterB | LetterC | LetterD | LetterE | LetterF | LetterG
| LetterH | LetterI | LetterJ | LetterK | LetterL | LetterM | LetterN
| LetterO | LetterP | LetterQ | LetterR | LetterS | LetterT | LetterU
| LetterV | LetterW | LetterX | LetterY | LetterZ.

Inductive Digit :=
| Digit0 | Digit1 | Digit2 | Digit3 | Digit4
| Digit5 | Digit6 | Digit7 | Digit8 | Digit9.

Inductive Arrow := ArrowUp | ArrowDown | ArrowRight | ArrowLeft.

Inductive ModifierKey :=
| KeyShift | KeyControl | KeyAlt | KeySuper | KeyCapsLock | KeyNumLock.

Inductive Key :=
| KeyLetter (l : Letter)
| KeyDigit (d : Digit)
| KeyArrow (a : Arrow)
| KeyModifier (m : ModifierKey).

(** Modelled from the spec: the modifier bitmask of section 3 (shift,
    control, alt, super, caps-lock, num-lock, combinable), one flag
    each. *)
Record Mods := mkMods {
  shift : bool;
  control : bool;
  alt : bool;
  super : bool;
  caps_lock : bool;
  num_lock : bool
}.

Definition no_mods : Mods := mkMods false false false false false false.

(** Modelled from the spec: the KeyEvent of section 3: action, logical
    key, modifiers and an optional UTF-8 payload (absent and empty are
    different and both legal). *)
Record KeyEvent := mkKeyEvent {
  action : GhosttyKeyAction;
  key : Key;
  mods : Mods;
  utf8 : option (list byte)
}.

(** Modelled from the spec: the encoder configuration of section 3 and
    4.1: the protocol mode and the flags of the extended protocol (a
    modifier parameter on every sequence, release reporting). *)
Inductive Mode := Legacy | Extended.

Record Config := mkConfig {
  mode : Mode;
  always_modifier_param : bool;
  report_release : bool
}.

Definition default_config : Config := mkConfig Legacy false false.

(** Modelled from the spec: a configuration is inconsistent when it asks
    for a flag of the extended protocol in a mode that has none. *)
Definition consistent (c : Config) : bool :=
  match mode c with
  | Legacy => negb (always_modifier_param c || report_release c)
  | Extended => true
  end.

(** *** UTF-8 *)

Definition in_range (lo hi : N) (b : byte) : bool :=
  (lo <=? byte_val b)%N && (byte_val b <=? hi)%N.

Definition continuation (b : byte) : bool := in_range 128 191 b.

(** Well-formed UTF-8 (RFC 3629): no overlong forms, no surrogates,
    nothing above U+10FFFF. *)
Fixpoint utf8_valid (s : list byte) : bool :=
  match s with
  | [] => true
  | b0 :: r0 =>
      if in_range 0 127 b0 then utf8_valid r0
      else match r0 with
      | [] => false
      | b1 :: r1 =>
          if in_range 194 223 b0 then continuation b1 && utf8_valid r1
          else match r1 with
          | [] => false
          | b2 :: r2 =>
              if in_range 224 239 b0 then
                (if in_range 224 224 b0 then in_range 160 191 b1
                 else if in_range 237 237 b0 then in_range 128 159 b1
                 else continuation b1)
                && continuation b2 && utf8_valid r2
              else match r2 with
              | [] => false
              | b3 :: r3 =>
                  in_range 240 244 b0
                  && (if in_range 240 240 b0 then in_range 144 191 b1
                      else if in_range 244 244 b0 then in_range 128 143 b1
                      else continuation b1)
                  && continuation b2 && continuation b3 && utf8_valid r3
              end
          end
      end
  end.

Definition payload_valid (e : KeyEvent) : bool :=
  match utf8 e with
  | None => true
  | Some text => utf8_valid text
  end.

(** *** The key encoder *)

Definition byte_of (n : N) : byte :=
  match Byte.of_N n with
  | Some b => b
  | None => NUL
  end.

(** The uppercase ASCII letter of a letter key. *)
Definition uppercase (l : Letter) : byte :=
  match l with
  | LetterA => "A" | LetterB => "B" | LetterC => "C" | LetterD => "D"
  | LetterE => "E" | LetterF => "F" | LetterG => "G" | LetterH => "H"
  | LetterI => "I" | LetterJ => "J" | LetterK => "K" | LetterL => "L"
  | LetterM => "M" | LetterN => "N" | LetterO => "O" | LetterP => "P"
  | LetterQ => "Q" | LetterR => "R" | LetterS => "S" | LetterT => "T"
  | LetterU => "U" | LetterV => "V" | LetterW => "W" | LetterX => "X"
  | LetterY => "Y" | LetterZ => "Z"
  end.

Definition letter_uppercase_ordinal (l : Letter) : N := byte_val (uppercase l).

(** Modelled from the spec: Control with a letter gives the C0 control
    code [chr (letter_uppercase_ordinal - 64)]. *)
Definition control_code (l : Letter) : byte :=
  byte_of (letter_uppercase_ordinal l - 64).

(** Modelled from the spec: the modifier parameter, shift=1, alt=2,
    ctrl=4, meta=8, added up, plus the base offset 1. *)
Definition modifier_parameter (m : Mods) : N :=
  (1 + (if shift m then 1 else 0) + (if alt m then 2 else 0)
     + (if control m then 4 else 0) + (if super m then 8 else 0))%N.

(** Modelled from the spec: legacy mode appends the parameter when a
    modifier besides plain shift is active; extended mode appends it
    for every modified key, and always when the configuration says so. *)
Definition wants_parameter (c : Config) (m : Mods) : bool :=
  match mode c with
  | Legacy => alt m || control m || super m
  | Extended =>
      always_modifier_param c || shift m || alt m || control m || super m
  end.

(** Decimal digits of a number below 100. *)
Definition decimal (n : N) : list byte :=
  if (n <? 10)%N then [byte_of (48 + n)]
  else [byte_of (48 + n / 10); byte_of (48 + n mod 10)].

(** Modelled from the spec: the final bytes of the arrow keys, CSI
    A/B/C/D for up, down, right, left. *)
Definition arrow_final (a : Arrow) : byte :=
  match a with
  | ArrowUp => "A"
  | ArrowDown => "B"
  | ArrowRight => "C"
  | ArrowLeft => "D"
  end.

(** Modelled from the spec: keys with a fixed escape sequence: the arrow
    keys give CSI A/B/C/D, with [1 ; parameter] in front of the final
    byte when a modifier parameter is due. *)
Definition fixed_sequence (c : Config) (k : Key) (m : Mods)
  : option (list byte) :=
  match k with
  | KeyArrow a =>
      Some ([ESC; "["]
            ++ (if wants_parameter c m
                then ["1"; ";"] ++ decimal (modifier_parameter m)
                else [])
            ++ [arrow_final a])
  | _ => None
  end.

Definition payload (e : KeyEvent) : list byte :=
  match utf8 e with
  | Some text => text
  | None => []
  end.

(** Modelled from the spec: a key without fixed sequence emits its text,
    and a letter key with Control held emits the control code instead. *)
Definition text_sequence (e : KeyEvent) : list byte :=
  match key e with
  | KeyLetter l => if control (mods e) then [control_code l] else payload e
  | _ => payload e
  end.

(** Modelled from the spec: a fixed escape sequence takes precedence
    over the text of the key. *)
Definition press_sequence (c : Config) (e : KeyEvent) : list byte :=
  match fixed_sequence c (key e) (mods e) with
  | Some s => s
  | None => text_sequence e
  end.

(** Modelled from the spec: the bytes an event encodes to, [None] for an
    event that is refused with [EncodeError] (malformed payload).  A
    release gives no bytes unless release reporting is configured; the
    specification does not say what a reported release looks like, the
    model reports it with the sequence of the press. *)
Definition sequence (c : Config) (e : KeyEvent) : option (list byte) :=
  if negb (payload_valid e) then None
  else match action e with
       | GHOSTTY_KEY_ACTION_RELEASE =>
           if report_release c then Some (press_sequence c e) else Some []
       | _ => Some (press_sequence c e)
       end.

(** Modelled from the spec: [encode] into a caller-supplied buffer of
    the given capacity: result code, the buffer afterwards, and the
    output length.  A sequence that does not fit is refused with
    [BufferTooSmall] and nothing is written. *)
Definition encode_with (c : Config) (e : KeyEvent) (buffer : list byte)
  (capacity : nat) : GhosttyResult * list byte * nat :=
  match sequence c e with
  | None => (GHOSTTY_ERROR EncodeError, buffer, 0)
  | Some s =>
      if capacity <? List.length s
      then (GHOSTTY_ERROR BufferTooSmall, buffer, 0)
      else (GHOSTTY_SUCCESS, s ++ skipn (List.length s) buffer, List.length s)
  end.

Definition result_code (r : GhosttyResult * list byte * nat) : GhosttyResult :=
  fst (fst r).

Definition buffer_after (r : GhosttyResult * list byte * nat) : list byte :=
  snd (fst r).

(** The encoded sequence: the first [out_len] bytes of the buffer. *)
Definition output (r : GhosttyResult * list byte * nat) : list byte :=
  firstn (snd r) (snd (fst r)).

(** *** Encoder instances *)

(** Modelled from the spec: the four calls of section 6 over a table of
    encoder instances.  An instance owns its configuration and nothing
    else.  Use of a handle that is not alive is outside the contract;
    of the two defences the specification offers, the model takes the
    error return. *)
Record State := mkState {
  encoders : list (Z * Config);
  next_handle : Z
}.

Definition initial : State := mkState [] 1.

Fixpoint find_encoder (h : Z) (t : list (Z * Config)) : option Config :=
  match t with
  | [] => None
  | (h', c) :: rest => if (h =? h')%Z then Some c else find_encoder h rest
  end.

Fixpoint drop_encoder (h : Z) (t : list (Z * Config)) : list (Z * Config) :=
  match t with
  | [] => []
  | (h', c) :: rest =>
      if (h =? h')%Z then drop_encoder h rest else (h', c) :: drop_encoder h rest
  end.

Definition create_encoder (config : option Config) (st : State)
  : GhosttyResult * Z * State :=
  let c := match config with Some c => c | None => default_config end in
  if consistent c
  then (GHOSTTY_SUCCESS, next_handle st,
        mkState ((next_handle st, c) :: encoders st) (next_handle st + 1))
  else (GHOSTTY_ERROR ConfigError, 0%Z, st).

Definition destroy_encoder (h : Z) (st : State) : State :=
  mkState (drop_encoder h (encoders st)) (next_handle st).

Definition encode (h : Z) (e : KeyEvent) (buffer : list byte)
  (capacity : nat) (st : State) : GhosttyResult * list byte * nat * State :=
  match find_encoder h (encoders st) with
  | Some c => (encode_with c e buffer capacity, st)
  | None => ((GHOSTTY_ERROR EncodeError, buffer, 0), st)
  end.

(** *** The paste classifier *)

(** Modelled from the spec: the markers of bracketed paste, [ESC [ 2 0 0 ~]
    and [ESC [ 2 0 1 ~], and the OSC introducer [ESC ]]. *)
Definition bracketed_paste_start : list byte := [ESC; "["; "2"; "0"; "0"; "~"].
Definition bracketed_paste_end : list byte := [ESC; "["; "2"; "0"; "1"; "~"].
Definition osc_introducer : list byte := [ESC; "]"].

Definition is_c1 (b : byte) : bool := in_range 128 159 b.

(** Modelled from the spec: the C1 bytes that may appear in a paste.
    The specification names no allowed subset; none is allowed. *)
Definition c1_allowed (b : byte) : bool := false.

Definition is_csi_final (b : byte) : bool := in_range 64 126 b.

(** Modelled from the spec: the dangerous patterns that are present as
    soon as their bytes are: the bracketed-paste markers, an OSC
    sequence (every OSC introducer counts, the specification draws no
    line between harmful and harmless ones), a C1 byte outside the
    allowed subset.  [data] is the buffer from some position on. *)
Definition pattern_at (data : list byte) : bool :=
  starts_with bracketed_paste_start data
  || starts_with bracketed_paste_end data
  || starts_with osc_introducer data
  || match data with
     | b :: _ => is_c1 b && negb (c1_allowed b)
     | [] => false
     end.

Definition is_intermediate (b : byte) : bool := in_range 32 47 b.
Definition is_escape_final (b : byte) : bool := in_range 48 126 b.

(** Modelled from the spec: does the escape sequence end within the
    bytes that follow its ESC?  The specification names CSI and OSC
    and no grammar; the model takes the one of ECMA-48: a CSI sequence
    ends with a final byte (0x40 to 0x7E), a sequence with intermediate
    bytes (0x20 to 0x2F) ends with a byte from 0x30 to 0x7E, any other
    escape sequence is over with the byte after ESC. *)
Definition escape_terminated (after : list byte) : bool :=
  match after with
  | [] => false
  | b :: rest =>
      if Byte.eqb b "[" then existsb is_csi_final rest
      else if is_intermediate b then existsb is_escape_final rest
      else true
  end.

(** Modelled from the spec: an escape sequence that the end of the
    buffer cuts off. *)
Definition unterminated_at (data : list byte) : bool :=
  match data with
  | b :: after => Byte.eqb b ESC && negb (escape_terminated after)
  | [] => false
  end.

Definition dangerous_at (data : list byte) : bool :=
  pattern_at data || unterminated_at data.

(** Modelled from the spec: [is_paste_safe]: unsafe if a dangerous
    pattern class matches at some position of the buffer, safe
    otherwise.  The input is any byte sequence. *)
Fixpoint is_paste_safe (data : list byte) : bool :=
  match data with
  | [] => true
  | _ :: rest => negb (dangerous_at data) && is_paste_safe rest
  end.

(** A pattern of [pattern_at] somewhere in the buffer. *)
Fixpoint contains_pattern (data : list byte) : bool :=
  match data with
  | [] => false
  | _ :: rest => pattern_at data || contains_pattern rest
  end.

(** An escape sequence somewhere in the buffer that the end of the buffer
    cuts off. *)
Fixpoint contains_unterminated (data : list byte) : bool :=
  match data with
  | [] => false
  | _ :: rest => unterminated_at data || contains_unterminated rest
  end.


End Core.

(** ** The bridge on top of the modelled core *)

Module Reference.

Import Core.

(** Modelled from the spec: the integers behind keys and modifiers are
    not among the sources and the specification only asks that they be
    stable.  Here a key is numbered by its place in the vocabulary, and
    the modifiers take the bits 0 to 5 in the order the specification
    lists them. *)
Definition vocabulary : list Key :=
  map KeyLetter
    [LetterA; LetterB; LetterC; LetterD; LetterE; LetterF; LetterG;
     LetterH; LetterI; LetterJ; LetterK; LetterL; LetterM; LetterN;
     LetterO; LetterP; LetterQ; LetterR; LetterS; LetterT; LetterU;
     LetterV; LetterW; LetterX; LetterY; LetterZ]
  ++ map KeyDigit
    [Digit0; Digit1; Digit2; Digit3; Digit4;
     Digit5; Digit6; Digit7; Digit8; Digit9]
  ++ map KeyArrow [ArrowUp; ArrowDown; ArrowRight; ArrowLeft]
  ++ map KeyModifier
    [KeyShift; KeyControl; KeyAlt; KeySuper; KeyCapsLock; KeyNumLock].

Definition key_of_code (k : Z) : option Key :=
  if (k <? 0)%Z then None else nth_error vocabulary (Z.to_nat k).

Definition mods_of_bits (m : Z) : Mods :=
  mkMods (Z.testbit m 0) (Z.testbit m 1) (Z.testbit m 2)
         (Z.testbit m 3) (Z.testbit m 4) (Z.testbit m 5).

(** The event the core reads out of an event object; an unknown key
    code makes the event structurally invalid. *)
Definition key_event_of (e : GhosttyKeyEvent) : option KeyEvent :=
  match key_of_code (ev_key e) with
  | Some k => Some (mkKeyEvent (ev_action e) k (mods_of_bits (ev_mods e)) (ev_utf8 e))
  | None => None
  end.

(** [ghostty_key_encoder_encode] of the modelled core.  The bridge
    creates its encoders without options, so every encoder it holds has
    the default configuration. *)
Definition core_encode (encoder : Z) (e : GhosttyKeyEvent)
  (buffer : list byte) (capacity : nat) (w : World)
  : GhosttyResult * list byte * nat :=
  match key_event_of e with
  | Some ke => encode_with default_config ke buffer capacity
  | None => (GHOSTTY_ERROR EncodeError, buffer, 0)
  end.

(** A platform whose core is the modelled one; JVM, allocation and stack
    stay those of [env]. *)
Definition with_core (env : Platform) : Platform :=
  mkPlatform (encoder_new env) (event_new env) (event_init env)
    core_encode is_paste_safe
    (string_utf_chars env) (new_string_utf env) (stack_byte env).

(** A platform on which nothing fails: allocations succeed, the JVM
    hands out the bytes of a string and builds the string of the bytes
    it is given, the core is the modelled one and the stack holds
    [garbage]. *)
Definition quiet (garbage : nat -> byte) : Platform :=
  mkPlatform
    (fun _ => (GHOSTTY_SUCCESS, 28672%Z))
    (fun _ => (GHOSTTY_SUCCESS, 32768%Z))
    (mkEvent GHOSTTY_KEY_ACTION_PRESS 0 0 None)
    core_encode is_paste_safe
    (fun s _ => Some s)
    (fun bytes _ => Some bytes)
    (fun _ => garbage).

(** A platform on which everything fails that can: no encoder, no key
    event, no bytes of a string, no new string. *)
Definition starved : Platform :=
  mkPlatform
    (fun _ => (GHOSTTY_ERROR ConfigError, 0%Z))
    (fun _ => (GHOSTTY_ERROR EncodeError, 0%Z))
    (mkEvent GHOSTTY_KEY_ACTION_PRESS 0 0 None)
    core_encode is_paste_safe
    (fun _ _ => None)
    (fun _ _ => None)
    (fun _ _ => NUL).

Definition zeroed : nat -> byte := fun _ => NUL.

(** A text payload that does not fit the bridge's 256 byte buffer. *)
Definition long_text : list byte := repeat "a"%byte 300.

Definition empty_world : World := mkWorld [] [].

(** Key codes and modifier masks used in the examples. *)
Definition code_letter_c : Z := 2.
Definition code_arrow_up : Z := 36.
Definition code_shift : Z := 40.
Definition code_unknown : Z := 9999.
Definition mask_shift : Z := 1.
Definition mask_control : Z := 2.

End Reference.

(** ** What the statements speak of *)

(** The core is only ever told "press", and only ever given a press. *)
Definition press_only (c : Call) : Prop :=
  match c with
  | CKeyEventSetAction _ a => a = GHOSTTY_KEY_ACTION_PRESS
  | CKeyEncoderEncode _ submitted _ _ _ =>
      option_map ev_action submitted = Some GHOSTTY_KEY_ACTION_PRESS
  | _ => True
  end.

(** Between [w] and [w'] the encoder was called and answered [res] with
    output length [len]. *)
Definition encoder_answered (res : GhosttyResult) (len : nat) (w w' : World)
  : Prop :=
  exists encoder submitted capacity,
    In (CKeyEncoderEncode encoder submitted capacity res len) (calls_since w w').

(** ** Reading the call log *)

(** The calls made between two worlds, oldest first. *)
Definition chronological (w w' : World) : list Call := rev (calls_since w w').

(** The discipline of key events, read off a log (oldest first): an event
    is alive from its successful creation to its free; setters and the
    encoder are only given events that are alive; only an event that is
    alive is freed; in the end no event is left alive. *)
Fixpoint events_protocol (alive : list Z) (cs : list Call) : bool :=
  match cs with
  | [] => match alive with [] => true | _ :: _ => false end
  | c :: rest =>
      match c with
      | CKeyEventNew res event =>
          events_protocol (if is_success res then event :: alive else alive) rest
      | CKeyEventSetAction event _ | CKeyEventSetKey event _
      | CKeyEventSetMods event _ | CKeyEventSetUtf8 event _ =>
          existsb (Z.eqb event) alive && events_protocol alive rest
      | CKeyEncoderEncode _ submitted _ _ _ =>
          match submitted with Some _ => true | None => false end
          && events_protocol alive rest
      | CKeyEventFree event =>
          existsb (Z.eqb event) alive
          && events_protocol (filter (fun q => negb (q =? event)%Z) alive) rest
      | _ => events_protocol alive rest
      end
  end.

Fixpoint same_bytes (a b : list byte) : bool :=
  match a, b with
  | [], [] => true
  | x :: a', y :: b' => Byte.eqb x y && same_bytes a' b'
  | _, _ => false
  end.

(** The discipline of [GetStringUTFChars], read off a log (oldest
    first): the bytes of a string are held from a successful
    [GetStringUTFChars] to the [ReleaseStringUTFChars] of that string;
    nothing is released that is not held, and in the end nothing is
    held. *)
Fixpoint strings_protocol (held : list JavaString) (cs : list Call) : bool :=
  match cs with
  | [] => match held with [] => true | _ :: _ => false end
  | c :: rest =>
      match c with
      | CGetStringUTFChars s (Some _) => strings_protocol (s :: held) rest
      | CReleaseStringUTFChars s =>
          match held with
          | s' :: held' => same_bytes s s' && strings_protocol held' rest
          | [] => false
          end
      | _ => strings_protocol held rest
      end
  end.

(** What the encoder was given, call by call: encoder, event, capacity. *)
Definition submitted_events (cs : list Call)
  : list (Z * option GhosttyKeyEvent * nat) :=
  flat_map (fun c =>
              match c with
              | CKeyEncoderEncode encoder submitted capacity _ _ =>
                  [(encoder, submitted, capacity)]
              | _ => []
              end) cs.


Definition is_error_log (c : Call) : bool :=
  match c with
  | CLog ANDROID_LOG_ERROR _ => true
  | _ => false
  end.

Definition answered_safe (c : Call) : bool :=
  match c with
  | CPasteIsSafe _ true => true
  | _ => false
  end.

(** Calls that the key encoding path has no business making. *)
Definition encoder_lifecycle_or_paste (c : Call) : bool :=
  match c with
  | CKeyEncoderNew _ _ | CKeyEncoderFree _ | CPasteIsSafe _ _ => true
  | _ => false
  end.

(** Calls that touch key events or encoders. *)
Definition touches_core_objects (c : Call) : bool :=
  match c with
  | CKeyEncoderNew _ _ | CKeyEncoderFree _ | CKeyEventNew _ _
  | CKeyEventSetAction _ _ | CKeyEventSetKey _ _ | CKeyEventSetMods _ _
  | CKeyEventSetUtf8 _ _ | CKeyEncoderEncode _ _ _ _ _ | CKeyEventFree _
  | CNewStringUTF _ _ => true
  | _ => false
  end.

(** A platform whose encoder writes the bytes [out] at the start of the
    buffer, whatever the event, and whose stack holds [garbage]. *)
Definition writes (out : list byte) (garbage : nat -> byte) : Platform :=
  mkPlatform
    (fun _ => (GHOSTTY_SUCCESS, 28672%Z))
    (fun _ => (GHOSTTY_SUCCESS, 32768%Z))
    (mkEvent GHOSTTY_KEY_ACTION_PRESS 0 0 None)
    (fun _ _ buffer _ _ =>
       (GHOSTTY_SUCCESS, out ++ skipn (List.length out) buffer, List.length out))
    (fun _ => true)
    (fun s _ => Some s)
    (fun bytes _ => Some bytes)
    (fun _ => garbage).

(** A stack that holds six question marks and NUL bytes after them. *)
Definition six_question_marks (i : nat) : byte :=
  if i <? 6 then "?"%byte else NUL.

(** * Properties *)

Import Core Reference.

(** ** C strings and the table of key events *)

Lemma c_string_prefix (mem : list byte) :
  firstn (strlen mem) mem = c_string mem.
Proof.
  unfold strlen.
  induction mem as [|b rest IH]; simpl; [reflexivity|].
  destruct (is_nul b); simpl; [reflexivity|].
  now rewrite IH.
Qed.

Lemma remove_event_twice p evs :
  remove_event p (remove_event p evs) = remove_event p evs.
Proof.
  induction evs as [|[q e] rest IH]; simpl; [reflexivity|].
  destruct (p =? q)%Z eqn:E; simpl; [assumption|].
  now rewrite E, IH.
Qed.

Lemma lookup_store p e evs : lookup_event p (store_event p e evs) = Some e.
Proof. unfold store_event; simpl. now rewrite Z.eqb_refl. Qed.

Lemma update_store p f e evs :
  update_event p f (store_event p e evs) = store_event p (f e) evs.
Proof.
  unfold update_event. rewrite lookup_store.
  unfold store_event; simpl. now rewrite Z.eqb_refl, remove_event_twice.
Qed.

Lemma calls_since_app w w' new :
  calls w' = new ++ calls w -> calls_since w w' = new.
Proof.
  intros H. unfold calls_since. rewrite H, length_app.
  replace (List.length new + List.length (calls w) - List.length (calls w))
    with (List.length new + 0) by lia.
  rewrite firstn_app_2. simpl. apply app_nil_r.
Qed.

(** ** Running the bridge *)

Ltac run_bridge :=
  cbv beta iota zeta delta
    [bind ret tell LOGD LOGE record_call
     ghostty_key_encoder_new ghostty_key_encoder_free ghostty_key_event_new
     set_field ghostty_key_event_set_action ghostty_key_event_set_key
     ghostty_key_event_set_mods ghostty_key_event_set_utf8
     ghostty_key_event_free ghostty_key_encoder_encode ghostty_paste_is_safe
     GetStringUTFChars ReleaseStringUTFChars NewStringUTF uninitialized
     set_text events calls is_success negb fst snd Nat.eqb];
  rewrite ?update_store, ?lookup_store, ?c_string_prefix.

(** Case analysis on every answer of the platform. *)
Ltac platform_cases :=
  repeat first
    [ progress run_bridge
    | match goal with
      | |- context [event_new ?P ?w] =>
          destruct (event_new P w) as [[|?] ?]
      | |- context [encoder_new ?P ?w] =>
          destruct (encoder_new P w) as [[|?] ?]
      | |- context [string_utf_chars ?P ?s ?w] =>
          destruct (string_utf_chars P s w) as [?|]
      | |- context [encoder_encode ?P ?a ?b ?c ?d ?w] =>
          destruct (encoder_encode P a b c d w) as [[[|?] ?] [|?]]
      | |- context [paste_is_safe ?P ?d] =>
          destruct (paste_is_safe P d)
      end ].

Ltac new_calls l cs :=
  lazymatch l with
  | cs => constr:(@nil Call)
  | ?c :: ?l' => let r := new_calls l' cs in constr:(c :: r)
  end.

(** C10: with encoder handle 0, [nativeEncodeKey] logs the error and
    returns NULL; it creates no key event and does not call the encoder:
    the log line is the only call it makes. *)
Theorem encode_null_handle_rejected (P : Platform) k m t w :
  nativeEncodeKey P 0 k m t w
  = (NULL, record_call (CLog ANDROID_LOG_ERROR "Invalid encoder handle") w).
Proof. reflexivity. Qed.

(** C9: [nativeDestroyKeyEncoder] with handle 0 leaves the world as it
    is: no call to [ghostty_key_encoder_free], no log line; and 0 is what
    [nativeCreateKeyEncoder] returns when the core fails to create an
    encoder. *)
Theorem destroy_null_handle_no_effect (P : Platform) (w : World) :
  nativeDestroyKeyEncoder 0 w = (tt, w)
  /\ calls_since w (snd (nativeDestroyKeyEncoder 0 w)) = []
  /\ fst (nativeCreateKeyEncoder P w)
     = if is_success (fst (encoder_new P w))
       then jlong_of_uintptr (snd (encoder_new P w))
       else 0%Z.
Proof.
  split; [reflexivity|]. split.
  - apply calls_since_app. reflexivity.
  - unfold nativeCreateKeyEncoder. run_bridge.
    destruct (encoder_new P w) as [[|e] enc]; reflexivity.
Qed.

(** C8: whatever the arguments and whatever the platform answers, every
    action [nativeEncodeKey] sets on a key event is press, and every key
    event it hands to the encoder has action press. *)
Theorem nativeEncodeKey_submits_press_only (P : Platform) h k m t w :
  exists new,
    calls (snd (nativeEncodeKey P h k m t w)) = new ++ calls w
    /\ Forall press_only new.
Proof.
  destruct w as [evs cs]. unfold nativeEncodeKey.
  destruct (uintptr_of_jlong h =? 0)%Z; [|destruct t as [s|]];
    platform_cases;
    match goal with
    | |- exists new, ?l = new ++ ?cs /\ _ =>
        let n := new_calls l cs in exists n
    end;
    (split; [reflexivity|]); repeat constructor.
Qed.

(** What [nativeIsPasteSafe] answers, for every input and platform. *)
Lemma nativeIsPasteSafe_verdict (P : Platform) data w :
  fst (nativeIsPasteSafe P data w)
  = match data with
    | None => JNI_FALSE
    | Some s =>
        match string_utf_chars P s w with
        | None => JNI_FALSE
        | Some chars =>
            if paste_is_safe P (c_string chars) then JNI_TRUE else JNI_FALSE
        end
    end.
Proof.
  destruct w as [evs cs]. unfold nativeIsPasteSafe.
  destruct data as [s|]; platform_cases; reflexivity.
Qed.

(** C3: the classifier gives every byte buffer a verdict, and
    [nativeIsPasteSafe] always answers with one, [JNI_TRUE] or
    [JNI_FALSE]: for a NULL string and for a string whose bytes the JVM
    cannot hand out the verdict is unsafe, and for any bytes at all,
    well-formed UTF-8 or not, it is the verdict of the classifier on
    them. *)
Theorem nativeIsPasteSafe_total (P : Platform) data w :
  (fst (nativeIsPasteSafe P data w) = JNI_TRUE
   \/ fst (nativeIsPasteSafe P data w) = JNI_FALSE)
  /\ fst (nativeIsPasteSafe P None w) = JNI_FALSE
  /\ fst (nativeIsPasteSafe P data w)
     = match data with
       | None => JNI_FALSE
       | Some s =>
           match string_utf_chars P s w with
           | None => JNI_FALSE
           | Some chars =>
               if paste_is_safe P (c_string chars) then JNI_TRUE else JNI_FALSE
           end
       end
  /\ fst (nativeIsPasteSafe (with_core P) data w)
     = match data with
       | None => JNI_FALSE
       | Some s =>
           match string_utf_chars P s w with
           | None => JNI_FALSE
           | Some chars =>
               if is_paste_safe (c_string chars) then JNI_TRUE else JNI_FALSE
           end
       end
  /\ (forall bytes : list byte,
        is_paste_safe bytes = true \/ is_paste_safe bytes = false).
Proof.
  split; [|split; [reflexivity | split; [apply nativeIsPasteSafe_verdict|split]]].
  - rewrite nativeIsPasteSafe_verdict.
    destruct data as [s|]; [|now right].
    destruct (string_utf_chars P s w) as [chars|]; [|now right].
    destruct (paste_is_safe P (c_string chars)); [now left | now right].
  - apply (nativeIsPasteSafe_verdict (with_core P)).
  - intros bytes. destruct (is_paste_safe bytes); [now left | now right].
Qed.

(** C2: the classifier finds the empty buffer safe, and
    [nativeIsPasteSafe] answers [JNI_TRUE] for a string whose bytes are
    the empty buffer. *)
Theorem empty_paste_is_safe (env : Platform) s w
  (Hchars : string_utf_chars env s w = Some []) :
  is_paste_safe [] = true
  /\ fst (nativeIsPasteSafe (with_core env) (Some s) w) = JNI_TRUE.
Proof.
  split; [reflexivity|].
  rewrite nativeIsPasteSafe_verdict. simpl. now rewrite Hchars.
Qed.

Lemma empty_paste_is_safe_witness :
  string_utf_chars (quiet zeroed) [] empty_world = Some []
  /\ is_paste_safe [] = true
  /\ fst (nativeIsPasteSafe (with_core (quiet zeroed)) (Some []) empty_world)
     = JNI_TRUE.
Proof.
  split; [reflexivity|].
  apply (@empty_paste_is_safe (quiet zeroed) [] empty_world). reflexivity.
Defined.

(** The encoder writes its output and nothing after it. *)
Lemma output_encode_with c e buffer capacity :
  output (encode_with c e buffer capacity)
  = match sequence c e with
    | Some s => if capacity <? List.length s then [] else s
    | None => []
    end.
Proof.
  unfold output, encode_with.
  destruct (sequence c e) as [s|]; [|reflexivity].
  destruct (capacity <? List.length s); [reflexivity|].
  simpl. rewrite firstn_app, Nat.sub_diag, firstn_all. simpl. apply app_nil_r.
Qed.

Lemma result_code_encode_with c e buffer capacity :
  result_code (encode_with c e buffer capacity)
  = match sequence c e with
    | Some s =>
        if capacity <? List.length s
        then GHOSTTY_ERROR BufferTooSmall else GHOSTTY_SUCCESS
    | None => GHOSTTY_ERROR EncodeError
    end.
Proof.
  unfold result_code, encode_with.
  destruct (sequence c e) as [s|]; [|reflexivity].
  now destruct (capacity <? List.length s).
Qed.

(** C1, as the code has it: at the core a successful encoding of length
    zero is a result of its own, [GHOSTTY_SUCCESS] with output length 0
    and the buffer untouched, which no error code equals; and
    [nativeEncodeKey] returns NULL to Java whenever the encoder answered
    with success and length zero, and whenever it answered with an
    error. *)
Theorem empty_output_and_error_return_null (P : Platform) h k m t w res len
  (Hanswer : encoder_answered res len w (snd (nativeEncodeKey P h k m t w)))
  (Hcase : (res = GHOSTTY_SUCCESS /\ len = 0) \/ is_success res = false) :
  fst (nativeEncodeKey P h k m t w) = NULL
  /\ (forall c e buffer capacity,
        sequence c e = Some [] ->
        encode_with c e buffer capacity = (GHOSTTY_SUCCESS, buffer, 0))
  /\ (forall err, GHOSTTY_SUCCESS <> GHOSTTY_ERROR err).
Proof.
  split; [|split].
  - destruct Hanswer as (encoder & submitted & capacity & Hin).
    revert Hin. destruct w as [evs cs]. unfold nativeEncodeKey.
    destruct (uintptr_of_jlong h =? 0)%Z; [|destruct t as [s|]];
      platform_cases; try reflexivity;
      match goal with
      | |- In _ (calls_since ?w (mkWorld ?evs' ?l)) -> _ =>
          let n := new_calls l cs in
          rewrite (@calls_since_app w (mkWorld evs' l) n eq_refl)
      end;
      simpl; intros Hin;
      repeat (destruct Hin as [Hin|Hin]; try discriminate Hin);
      try contradiction;
      injection Hin as <- <- <- <- <-;
      destruct Hcase as [[_ Hlen]|Hres]; discriminate.
  - intros c e buffer capacity Hseq. unfold encode_with. rewrite Hseq.
    reflexivity.
  - intros err; discriminate.
Qed.

Lemma empty_output_and_error_return_null_witness :
  encoder_answered GHOSTTY_SUCCESS 0 empty_world
    (snd (nativeEncodeKey (quiet zeroed) 28672 code_shift mask_shift None
            empty_world))
  /\ fst (nativeEncodeKey (quiet zeroed) 28672 code_shift mask_shift None
            empty_world) = NULL.
Proof.
  assert (H : encoder_answered GHOSTTY_SUCCESS 0 empty_world
                (snd (nativeEncodeKey (quiet zeroed) 28672 code_shift
                        mask_shift None empty_world))).
  { exists 28672%Z, (Some (mkEvent GHOSTTY_KEY_ACTION_PRESS 40 1 None)), 256.
    vm_compute. right; left; reflexivity. }
  split; [exact H|].
  apply (@empty_output_and_error_return_null (quiet zeroed) 28672 code_shift
           mask_shift None empty_world GHOSTTY_SUCCESS 0 H).
  left; split; reflexivity.
Defined.

(** C1, as it is claimed, fails: the press of a bare Shift key encodes
    successfully to zero bytes, a key code outside the vocabulary is
    refused with [EncodeError], and Java gets the same value, NULL, for
    both. *)
Lemma empty_output_looks_like_error_to_java :
  encoder_answered GHOSTTY_SUCCESS 0 empty_world
    (snd (nativeEncodeKey (quiet zeroed) 28672 code_shift mask_shift None
            empty_world))
  /\ encoder_answered (GHOSTTY_ERROR EncodeError) 0 empty_world
       (snd (nativeEncodeKey (quiet zeroed) 28672 code_unknown 0 None
               empty_world))
  /\ fst (nativeEncodeKey (quiet zeroed) 28672 code_shift mask_shift None
            empty_world)
     = fst (nativeEncodeKey (quiet zeroed) 28672 code_unknown 0 None
              empty_world).
Proof.
  split; [|split].
  - exists 28672%Z, (Some (mkEvent GHOSTTY_KEY_ACTION_PRESS 40 1 None)), 256.
    vm_compute. right; left; reflexivity.
  - exists 28672%Z, (Some (mkEvent GHOSTTY_KEY_ACTION_PRESS 9999 0 None)), 256.
    vm_compute. right; right; left; reflexivity.
  - reflexivity.
Qed.

(** ** The key encoder *)


(** C5: an encoded sequence longer than the capacity makes [encode] fail
    with [BufferTooSmall], and the buffer is afterwards what it was
    before. *)
Theorem encode_buffer_too_small (c : Config) e s buffer capacity
  (Hseq : sequence c e = Some s)
  (Hcap : capacity < List.length s) :
  result_code (encode_with c e buffer capacity) = GHOSTTY_ERROR BufferTooSmall
  /\ buffer_after (encode_with c e buffer capacity) = buffer
  /\ output (encode_with c e buffer capacity) = [].
Proof.
  apply Nat.ltb_lt in Hcap.
  rewrite result_code_encode_with, output_encode_with.
  unfold buffer_after, encode_with. rewrite Hseq, Hcap. repeat split.
Qed.

Lemma encode_buffer_too_small_witness :
  sequence default_config
    (mkKeyEvent GHOSTTY_KEY_ACTION_PRESS (KeyLetter LetterA) no_mods
       (Some long_text)) = Some long_text
  /\ 256 < List.length long_text
  /\ result_code
       (encode_with default_config
          (mkKeyEvent GHOSTTY_KEY_ACTION_PRESS (KeyLetter LetterA) no_mods
             (Some long_text)) (repeat NUL 256) 256)
     = GHOSTTY_ERROR BufferTooSmall
  /\ buffer_after
       (encode_with default_config
          (mkKeyEvent GHOSTTY_KEY_ACTION_PRESS (KeyLetter LetterA) no_mods
             (Some long_text)) (repeat NUL 256) 256)
     = repeat NUL 256
  /\ output
       (encode_with default_config
          (mkKeyEvent GHOSTTY_KEY_ACTION_PRESS (KeyLetter LetterA) no_mods
             (Some long_text)) (repeat NUL 256) 256)
     = [].
Proof.
  assert (Hseq : sequence default_config
            (mkKeyEvent GHOSTTY_KEY_ACTION_PRESS (KeyLetter LetterA) no_mods
               (Some long_text)) = Some long_text) by (vm_compute; reflexivity).
  assert (Hcap : 256 < List.length long_text)
    by (apply Nat.ltb_lt; vm_compute; reflexivity).
  split; [exact Hseq|]. split; [exact Hcap|].
  exact (@encode_buffer_too_small default_config _ long_text (repeat NUL 256)
           256 Hseq Hcap).
Defined.

Lemma letter_uppercase_ordinal_range (l : Letter) :
  (65 <= letter_uppercase_ordinal l <= 90)%N.
Proof. destruct l; vm_compute; split; discriminate. Qed.

Lemma control_code_value (l : Letter) :
  Z.of_N (byte_val (control_code l))
  = (Z.of_N (letter_uppercase_ordinal l) - 64)%Z.
Proof. destruct l; reflexivity. Qed.

(** C6: the press of a letter key with Control held (any other modifiers,
    any configuration, any well-formed payload, room for one byte)
    encodes to exactly one byte, whose value is the ordinal of the
    uppercase letter minus 64. *)
Theorem control_letter_is_c0 (c : Config) (l : Letter) (m : Mods) text
  buffer capacity
  (Hcontrol : control m = true)
  (Hvalid : payload_valid
              (mkKeyEvent GHOSTTY_KEY_ACTION_PRESS (KeyLetter l) m text) = true)
  (Hroom : 1 <= capacity) :
  let r := encode_with c
             (mkKeyEvent GHOSTTY_KEY_ACTION_PRESS (KeyLetter l) m text)
             buffer capacity in
  result_code r = GHOSTTY_SUCCESS
  /\ snd r = 1
  /\ output r = [control_code l]
  /\ Z.of_N (byte_val (control_code l))
     = (Z.of_N (letter_uppercase_ordinal l) - 64)%Z
  /\ (65 <= letter_uppercase_ordinal l <= 90)%N.
Proof.
  intros r. subst r.
  assert (Hseq : sequence c
            (mkKeyEvent GHOSTTY_KEY_ACTION_PRESS (KeyLetter l) m text)
          = Some [control_code l]).
  { unfold sequence. rewrite Hvalid. simpl.
    unfold press_sequence, text_sequence. simpl. now rewrite Hcontrol. }
  assert (Hfits : (capacity <? 1) = false) by (apply Nat.ltb_ge; exact Hroom).
  rewrite result_code_encode_with, output_encode_with.
  unfold encode_with. rewrite Hseq. simpl List.length.
  rewrite Hfits.
  repeat split; try reflexivity.
  - apply control_code_value.
  - apply letter_uppercase_ordinal_range.
  - apply letter_uppercase_ordinal_range.
Qed.

Lemma control_letter_is_c0_witness :
  control (mkMods false true false false false false) = true
  /\ 1 <= 256
  /\ output
       (encode_with default_config
          (mkKeyEvent GHOSTTY_KEY_ACTION_PRESS (KeyLetter LetterZ)
             (mkMods false true false false false false) None)
          (repeat NUL 256) 256)
     = [control_code LetterZ]
  /\ byte_val (control_code LetterZ) = 26%N.
Proof.
  split; [reflexivity|]. split; [lia|].
  destruct (@control_letter_is_c0 default_config LetterZ
              (mkMods false true false false false false) None
              (repeat NUL 256) 256 eq_refl eq_refl ltac:(lia))
    as (_ & _ & Hout & _ & _).
  split; [exact Hout | reflexivity].
Defined.

(** Control+A, Control+C and Control+Z. *)
Example control_a_c_z :
  map control_code [LetterA; LetterC; LetterZ] = [x01; x03; x1a].
Proof. reflexivity. Qed.

(** The arrow key examples of the specification: Up in legacy mode, and
    Up with Shift in extended mode. *)
Example arrow_up_sequences :
  sequence default_config
    (mkKeyEvent GHOSTTY_KEY_ACTION_PRESS (KeyArrow ArrowUp) no_mods None)
  = Some [ESC; "["; "A"]%byte
  /\ sequence (mkConfig Extended false false)
       (mkKeyEvent GHOSTTY_KEY_ACTION_PRESS (KeyArrow ArrowUp)
          (mkMods true false false false false false) None)
     = Some [ESC; "["; "1"; ";"; "2"; "A"]%byte.
Proof. split; reflexivity. Qed.

(** A release without release reporting encodes to nothing. *)
Lemma release_is_silent (c : Config) k m text :
  report_release c = false ->
  payload_valid (mkKeyEvent GHOSTTY_KEY_ACTION_RELEASE k m text) = true ->
  sequence c (mkKeyEvent GHOSTTY_KEY_ACTION_RELEASE k m text) = Some [].
Proof.
  intros Hrel Hvalid. unfold sequence. rewrite Hvalid. simpl. now rewrite Hrel.
Qed.

(** ** The paste classifier *)

Lemma starts_with_app pat data suf :
  starts_with pat data = true -> starts_with pat (data ++ suf) = true.
Proof.
  revert data. induction pat as [|p pat IH]; intros [|d data]; simpl;
    try reflexivity; try discriminate.
  intros H. apply andb_true_iff in H as [Hp Hrest].
  now rewrite Hp, (IH _ Hrest).
Qed.

Lemma pattern_at_app data suf :
  pattern_at data = true -> pattern_at (data ++ suf) = true.
Proof.
  unfold pattern_at. intros H.
  repeat (apply orb_true_iff in H as [H|H]).
  - now rewrite (starts_with_app _ _ suf H).
  - rewrite (starts_with_app _ _ suf H). now rewrite !orb_true_r.
  - rewrite (starts_with_app _ _ suf H). now rewrite !orb_true_r.
  - destruct data as [|b rest]; [discriminate|].
    cbn [app]. cbv beta iota in H |- *.
    rewrite H. now rewrite !orb_true_r.
Qed.

Lemma contains_pattern_suffix data suf :
  contains_pattern data = true -> contains_pattern (data ++ suf) = true.
Proof.
  induction data as [|b rest IH]; [discriminate|].
  intros H. change (pattern_at (b :: rest) || contains_pattern rest = true) in H.
  change (pattern_at ((b :: rest) ++ suf) || contains_pattern (rest ++ suf) = true).
  apply orb_true_iff in H as [H|H].
  - now rewrite (pattern_at_app _ suf H).
  - rewrite (IH H). apply orb_true_r.
Qed.

Lemma contains_pattern_prefix pre data :
  contains_pattern data = true -> contains_pattern (pre ++ data) = true.
Proof.
  intros H. induction pre as [|b pre IH]; [exact H|].
  change (pattern_at (b :: pre ++ data) || contains_pattern (pre ++ data) = true).
  rewrite IH. apply orb_true_r.
Qed.

Lemma contains_pattern_unsafe data :
  contains_pattern data = true -> is_paste_safe data = false.
Proof.
  induction data as [|b rest IH]; [discriminate|].
  intros H. change (pattern_at (b :: rest) || contains_pattern rest = true) in H.
  change (negb (dangerous_at (b :: rest)) && is_paste_safe rest = false).
  apply orb_true_iff in H as [H|H].
  - unfold dangerous_at. now rewrite H.
  - rewrite (IH H). apply andb_false_r.
Qed.

(** An unsafe buffer holds a dangerous pattern or an escape sequence that
    its end cuts off. *)
Lemma unsafe_cases data :
  is_paste_safe data = false ->
  contains_pattern data = true \/ contains_unterminated data = true.
Proof.
  induction data as [|b rest IH]; [discriminate|].
  change (negb (dangerous_at (b :: rest)) && is_paste_safe rest = false ->
          pattern_at (b :: rest) || contains_pattern rest = true
          \/ unterminated_at (b :: rest) || contains_unterminated rest = true).
  unfold dangerous_at.
  destruct (pattern_at (b :: rest)); [now left|].
  destruct (unterminated_at (b :: rest)); [now right|].
  simpl. intros H. destruct (IH H) as [Hp|Hu]; [left | right]; assumption.
Qed.

Lemma paste_end_unsafe pre post :
  is_paste_safe (pre ++ bracketed_paste_end ++ post) = false.
Proof.
  apply contains_pattern_unsafe, contains_pattern_prefix,
    contains_pattern_suffix. reflexivity.
Qed.




(** [nativeIsPasteSafe] on a string whose bytes hold the
    bracketed-paste-end sequence. *)
Corollary nativeIsPasteSafe_rejects_paste_end (env : Platform) s w chars pre post :
  string_utf_chars env s w = Some chars ->
  c_string chars = pre ++ bracketed_paste_end ++ post ->
  fst (nativeIsPasteSafe (with_core env) (Some s) w) = JNI_FALSE.
Proof.
  intros Hchars Hbytes. rewrite nativeIsPasteSafe_verdict. simpl.
  now rewrite Hchars, Hbytes, paste_end_unsafe.
Qed.

(** ** The string handed back to Java *)

(** [nativeEncodeKey] builds its result with [NewStringUTF (env, buffer)],
    which reads the buffer up to the first NUL.  The modelled core writes
    the encoded bytes and nothing after them, so the string goes on with
    what the stack held: Up gives [ESC [ A] over a zeroed stack and
    [ESC [ A ? ? ...] over a stack of question marks. *)
Remark encoded_string_runs_into_stack :
  fst (nativeEncodeKey (quiet zeroed) 28672 code_arrow_up 0 None empty_world)
  = Some [ESC; "["; "A"]%byte
  /\ fst (nativeEncodeKey (quiet (fun _ => "?"%byte)) 28672 code_arrow_up 0
            None empty_world)
     = Some ([ESC; "["; "A"] ++ repeat "?" 253)%byte.
Proof. split; vm_compute; reflexivity. Qed.

(** A text of 300 bytes does not fit the 256 byte buffer: the encoder
    refuses it and Java gets NULL. *)
Example long_text_is_refused :
  fst (nativeEncodeKey (quiet zeroed) 28672 0 0 (Some long_text) empty_world)
  = NULL
  /\ encoder_answered (GHOSTTY_ERROR BufferTooSmall) 0 empty_world
       (snd (nativeEncodeKey (quiet zeroed) 28672 0 0 (Some long_text)
               empty_world)).
Proof.
  split; [vm_compute; reflexivity|].
  exists 28672%Z,
    (Some (mkEvent GHOSTTY_KEY_ACTION_PRESS 0 0 (Some long_text))), 256.
  vm_compute. right; right; left; reflexivity.
Qed.

(** ** The models at work *)

(** Bytes that are no UTF-8 at all get a verdict like any others. *)
Example malformed_bytes_get_a_verdict :
  utf8_valid [xff; xfe; xc0] = false
  /\ is_paste_safe [xff; xfe; xc0] = true
  /\ is_paste_safe ([xff; xfe; xc0] ++ bracketed_paste_end) = false
  /\ fst (nativeIsPasteSafe (quiet zeroed) (Some [xff; xfe; xc0]) empty_world)
     = JNI_TRUE.
Proof. repeat split. Qed.

(** Control+C through the bridge. *)
Example control_c_through_the_bridge :
  fst (nativeEncodeKey (quiet zeroed) 28672 code_letter_c mask_control None
         empty_world) = Some [x03].
Proof. vm_compute; reflexivity. Qed.

(** When the core cannot create an encoder the bridge hands out 0, and
    destroying that handle does nothing; and a string whose bytes the JVM
    cannot hand out is judged unsafe. *)
Example starved_platform :
  fst (nativeCreateKeyEncoder starved empty_world) = 0%Z
  /\ nativeDestroyKeyEncoder 0 empty_world = (tt, empty_world)
  /\ fst (nativeIsPasteSafe starved (Some []) empty_world) = JNI_FALSE.
Proof. repeat split. Qed.

(** The encoder instances of the core: creation without configuration
    succeeds, an inconsistent configuration is refused, and a destroyed
    encoder encodes nothing any more. *)
Example encoder_instances :
  create_encoder None initial
  = (GHOSTTY_SUCCESS, 1%Z, mkState [(1%Z, default_config)] 2)
  /\ fst (create_encoder (Some (mkConfig Legacy true false)) initial)
     = (GHOSTTY_ERROR ConfigError, 0%Z)
  /\ fst (encode 1
            (mkKeyEvent GHOSTTY_KEY_ACTION_PRESS (KeyArrow ArrowLeft) no_mods None)
            [] 8 (snd (create_encoder None initial)))
     = (GHOSTTY_SUCCESS, [ESC; "["; "D"]%byte, 3)
  /\ fst (encode 1
            (mkKeyEvent GHOSTTY_KEY_ACTION_PRESS (KeyArrow ArrowLeft) no_mods None)
            [] 8 (destroy_encoder 1 (snd (create_encoder None initial))))
     = (GHOSTTY_ERROR EncodeError, [], 0).
Proof. repeat split. Qed.

(** * More of the bridge *)

(** ** Handles *)

Lemma uintptr_of_jlong_of_uintptr (p : Z) :
  uintptr_of_jlong (jlong_of_uintptr p) = (p mod 2 ^ 64)%Z.
Proof.
  unfold uintptr_of_jlong, jlong_of_uintptr.
  assert (Hb := Z.mod_pos_bound p (2 ^ 64) ltac:(reflexivity)).
  destruct (p mod 2 ^ 64 <? 2 ^ 63)%Z.
  - apply Z.mod_small. exact Hb.
  - replace (p mod 2 ^ 64 - 2 ^ 64)%Z
      with (p mod 2 ^ 64 + (-1) * 2 ^ 64)%Z by ring.
    rewrite Z.mod_add by discriminate. apply Z.mod_small. exact Hb.
Qed.





(** A handle other than 0 always comes from an encoder the core created:
    when [nativeCreateKeyEncoder] returns a non-zero handle the core
    reported success, and the handle casts back to the pointer the core
    gave. *)
Theorem nonzero_handle_is_created (P : Platform) (w : World)
  (Hnz : fst (nativeCreateKeyEncoder P w) <> 0%Z) :
  fst (encoder_new P w) = GHOSTTY_SUCCESS
  /\ uintptr_of_jlong (fst (nativeCreateKeyEncoder P w))
     = (snd (encoder_new P w) mod 2 ^ 64)%Z
  /\ events (snd (nativeCreateKeyEncoder P w)) = events w.
Proof.
  revert Hnz. destruct w as [evs cs]. unfold nativeCreateKeyEncoder.
  run_bridge. destruct (encoder_new P _) as [[|e] p]; run_bridge; intros Hnz.
  - repeat split. apply uintptr_of_jlong_of_uintptr.
  - now contradiction Hnz.
Qed.

Lemma nonzero_handle_is_created_witness :
  fst (nativeCreateKeyEncoder (quiet zeroed) empty_world) <> 0%Z
  /\ fst (encoder_new (quiet zeroed) empty_world) = GHOSTTY_SUCCESS
  /\ uintptr_of_jlong (fst (nativeCreateKeyEncoder (quiet zeroed) empty_world))
     = (snd (encoder_new (quiet zeroed) empty_world) mod 2 ^ 64)%Z
  /\ events (snd (nativeCreateKeyEncoder (quiet zeroed) empty_world))
     = events empty_world.
Proof.
  assert (Hnz : fst (nativeCreateKeyEncoder (quiet zeroed) empty_world) <> 0%Z)
    by discriminate.
  split; [exact Hnz|].
  exact (@nonzero_handle_is_created (quiet zeroed) empty_world Hnz).
Defined.

Lemma nativeDestroyKeyEncoder_frees (h : jlong) (w : World) :
  uintptr_of_jlong h <> 0%Z ->
  nativeDestroyKeyEncoder h w
  = (tt, mkWorld (events w)
           (CLog ANDROID_LOG_DEBUG "Destroyed key encoder: %p"
            :: CKeyEncoderFree (uintptr_of_jlong h) :: calls w)).
Proof.
  intros Hnz. unfold nativeDestroyKeyEncoder.
  destruct (Z.eqb_spec (uintptr_of_jlong h) 0) as [E|_]; [contradiction|].
  reflexivity.
Qed.

(** Create, then destroy: when the core creates an encoder at a pointer
    other than NULL, destroying the handle that
    [nativeCreateKeyEncoder] returned frees that very pointer, once, and
    touches no key event. *)
Theorem create_then_destroy_frees_the_encoder (P : Platform) (w : World) p
  (Hnew : encoder_new P w = (GHOSTTY_SUCCESS, p))
  (Hptr : (0 < p < 2 ^ 64)%Z) :
  let created := nativeCreateKeyEncoder P w in
  let destroyed := nativeDestroyKeyEncoder (fst created) (snd created) in
  calls_since (snd created) (snd destroyed)
  = [CLog ANDROID_LOG_DEBUG "Destroyed key encoder: %p"; CKeyEncoderFree p]
  /\ events (snd destroyed) = events w.
Proof.
  intros created destroyed. subst created destroyed.
  assert (Hcreated : nativeCreateKeyEncoder P w
            = (jlong_of_uintptr p,
               mkWorld (events w)
                 (CLog ANDROID_LOG_DEBUG "Created key encoder: %p"
                  :: CKeyEncoderNew GHOSTTY_SUCCESS p :: calls w))).
  { unfold nativeCreateKeyEncoder. run_bridge. rewrite Hnew. reflexivity. }
  rewrite Hcreated. cbn [fst snd].
  assert (Hback : uintptr_of_jlong (jlong_of_uintptr p) = p).
  { rewrite uintptr_of_jlong_of_uintptr. apply Z.mod_small. lia. }
  rewrite nativeDestroyKeyEncoder_frees by (rewrite Hback; lia).
  rewrite Hback. cbn [fst snd events calls]. split; [|reflexivity].
  apply calls_since_app. reflexivity.
Qed.

Lemma create_then_destroy_frees_the_encoder_witness :
  encoder_new (quiet zeroed) empty_world = (GHOSTTY_SUCCESS, 28672%Z)
  /\ (0 < 28672 < 2 ^ 64)%Z
  /\ calls_since (snd (nativeCreateKeyEncoder (quiet zeroed) empty_world))
       (snd (nativeDestroyKeyEncoder
               (fst (nativeCreateKeyEncoder (quiet zeroed) empty_world))
               (snd (nativeCreateKeyEncoder (quiet zeroed) empty_world))))
     = [CLog ANDROID_LOG_DEBUG "Destroyed key encoder: %p";
        CKeyEncoderFree 28672].
Proof.
  assert (Hptr : (0 < 28672 < 2 ^ 64)%Z) by (split; reflexivity).
  split; [reflexivity|]. split; [exact Hptr|].
  exact (proj1 (@create_then_destroy_frees_the_encoder (quiet zeroed)
                  empty_world 28672%Z eq_refl Hptr)).
Defined.



(** ** Key events and strings in [nativeEncodeKey] *)

Lemma remove_store p e evs :
  remove_event p (store_event p e evs) = remove_event p evs.
Proof.
  unfold store_event; simpl. now rewrite Z.eqb_refl, remove_event_twice.
Qed.

Lemma same_bytes_refl (s : list byte) : same_bytes s s = true.
Proof.
  induction s as [|b s IH]; [reflexivity|]. simpl.
  now rewrite IH, (Byte.byte_dec_lb eq_refl).
Qed.

Ltac since_new cs :=
  match goal with
  | |- context [calls_since ?w (mkWorld ?evs' ?l)] =>
      let n := new_calls l cs in
      rewrite (@calls_since_app w (mkWorld evs' l) n eq_refl)
  end.

(** [nativeEncodeKey] handles its key event cleanly on every path: the
    setters and the encoder are only given the event after it was
    created successfully, the event is freed exactly once, nothing is
    used after the free, and no event is left alive: the table of live
    events is the one from before the call, less the address used. *)
Theorem nativeEncodeKey_events_protocol (P : Platform) h k m t w :
  events_protocol [] (chronological w (snd (nativeEncodeKey P h k m t w)))
  = true
  /\ events (snd (nativeEncodeKey P h k m t w))
     = if (uintptr_of_jlong h =? 0)%Z
          || negb (is_success (fst (event_new P w)))
       then events w
       else remove_event (snd (event_new P w)) (events w).
Proof.
  destruct w as [evs cs]. unfold nativeEncodeKey, chronological.
  destruct (uintptr_of_jlong h =? 0)%Z; [|destruct t as [s|]];
    platform_cases; rewrite ?remove_store;
    (split; [since_new cs; simpl; rewrite ?Z.eqb_refl; reflexivity
            | reflexivity]).
Qed.

(** [nativeEncodeKey] gives back every string it takes: each successful
    [GetStringUTFChars] is followed by the [ReleaseStringUTFChars] of the
    same string, also when the encoder fails afterwards, and nothing is
    released when [GetStringUTFChars] returned NULL or the text was
    NULL. *)
Theorem nativeEncodeKey_strings_protocol (P : Platform) h k m t w :
  strings_protocol [] (chronological w (snd (nativeEncodeKey P h k m t w)))
  = true.
Proof.
  destruct w as [evs cs]. unfold nativeEncodeKey, chronological.
  destruct (uintptr_of_jlong h =? 0)%Z; [|destruct t as [s|]];
    platform_cases; since_new cs; simpl; rewrite ?same_bytes_refl;
    reflexivity.
Qed.


(** [nativeEncodeKey] never creates or frees an encoder and never calls
    the paste classifier. *)
Theorem nativeEncodeKey_leaves_encoders_alone (P : Platform) h k m t w :
  filter encoder_lifecycle_or_paste
    (calls_since w (snd (nativeEncodeKey P h k m t w))) = [].
Proof.
  destruct w as [evs cs]. unfold nativeEncodeKey.
  destruct (uintptr_of_jlong h =? 0)%Z; [|destruct t as [s|]];
    platform_cases; since_new cs; reflexivity.
Qed.

(** The two disciplines do reject logs that break them: an event that is
    never freed, a setter after the free, a string that is never
    released, a release without a string. *)
Example protocols_reject :
  events_protocol [] [CKeyEventNew GHOSTTY_SUCCESS 1] = false
  /\ events_protocol []
       [CKeyEventNew GHOSTTY_SUCCESS 1; CKeyEventFree 1; CKeyEventSetKey 1 0]
     = false
  /\ events_protocol []
       [CKeyEventNew (GHOSTTY_ERROR EncodeError) 1; CKeyEventFree 1] = false
  /\ strings_protocol [] [CGetStringUTFChars [] (Some [])] = false
  /\ strings_protocol [] [CReleaseStringUTFChars []] = false.
Proof. repeat split. Qed.

(** When [ghostty_key_event_new] fails, [nativeEncodeKey] logs the
    failure and returns NULL at once: it sets nothing, takes no string,
    does not call the encoder and frees nothing, and the table of key
    events is untouched. *)
Theorem nativeEncodeKey_event_creation_fails (P : Platform) h k m t w
  (Hhandle : uintptr_of_jlong h <> 0%Z)
  (Hfail : is_success (fst (event_new P w)) = false) :
  nativeEncodeKey P h k m t w
  = (NULL,
     mkWorld (events w)
       (CLog ANDROID_LOG_ERROR "Failed to create key event"
        :: CKeyEventNew (fst (event_new P w)) (snd (event_new P w))
        :: calls w)).
Proof.
  revert Hfail. destruct w as [evs cs]. unfold nativeEncodeKey.
  destruct (Z.eqb_spec (uintptr_of_jlong h) 0) as [E|_]; [contradiction|].
  run_bridge. destruct (event_new P _) as [[|e] ev]; run_bridge; intros Hfail;
    [discriminate | reflexivity].
Qed.

Lemma nativeEncodeKey_event_creation_fails_witness :
  uintptr_of_jlong 28672 <> 0%Z
  /\ is_success (fst (event_new starved empty_world)) = false
  /\ nativeEncodeKey starved 28672 code_letter_c mask_control (Some [])
       empty_world
     = (NULL,
        mkWorld []
          [CLog ANDROID_LOG_ERROR "Failed to create key event";
           CKeyEventNew (GHOSTTY_ERROR EncodeError) 0]).
Proof.
  assert (Hh : uintptr_of_jlong 28672 <> 0%Z) by discriminate.
  split; [exact Hh|]. split; [reflexivity|].
  exact (@nativeEncodeKey_event_creation_fails starved 28672%Z code_letter_c
           mask_control (Some []) empty_world Hh eq_refl).
Defined.

(** Java gets a string from [nativeEncodeKey] only when the encoder
    succeeded with an output length other than zero: then the string is
    what [NewStringUTF] returned, and no error line was logged. *)
Theorem nativeEncodeKey_string_means_success (P : Platform) h k m t w
  (Hstring : fst (nativeEncodeKey P h k m t w) <> NULL) :
  let new := calls_since w (snd (nativeEncodeKey P h k m t w)) in
  (exists n, encoder_answered GHOSTTY_SUCCESS (S n) w
               (snd (nativeEncodeKey P h k m t w)))
  /\ (exists bytes,
        In (CNewStringUTF bytes (fst (nativeEncodeKey P h k m t w))) new)
  /\ filter is_error_log new = [].
Proof.
  revert Hstring. destruct w as [evs cs].
  unfold encoder_answered, nativeEncodeKey.
  destruct (uintptr_of_jlong h =? 0)%Z; [|destruct t as [s|]];
    platform_cases; intros Hstring; try (now contradiction Hstring);
    since_new cs;
    (split; [eexists; eexists; eexists; eexists; simpl; right; right; right;
             left; reflexivity
            | split; [eexists; simpl; right; left; reflexivity
                     | reflexivity]]).
Qed.

Lemma nativeEncodeKey_string_means_success_witness :
  fst (nativeEncodeKey (quiet zeroed) 28672 code_letter_c mask_control None
         empty_world) <> NULL
  /\ (exists n, encoder_answered GHOSTTY_SUCCESS (S n) empty_world
                  (snd (nativeEncodeKey (quiet zeroed) 28672 code_letter_c
                          mask_control None empty_world)))
  /\ filter is_error_log
       (calls_since empty_world
          (snd (nativeEncodeKey (quiet zeroed) 28672 code_letter_c
                  mask_control None empty_world))) = [].
Proof.
  assert (Hs : fst (nativeEncodeKey (quiet zeroed) 28672 code_letter_c
                      mask_control None empty_world) <> NULL)
    by (vm_compute; discriminate).
  split; [exact Hs|].
  destruct (@nativeEncodeKey_string_means_success (quiet zeroed) 28672%Z
              code_letter_c mask_control None empty_world Hs)
    as (Hanswer & _ & Hlog).
  split; [exact Hanswer | exact Hlog].
Defined.

(** ** The string handed back to Java, in general *)

Lemma c_string_app_clean (a b : list byte) :
  forallb (fun x => negb (is_nul x)) a = true ->
  c_string (a ++ b) = a ++ c_string b.
Proof.
  induction a as [|x a IH]; simpl; [reflexivity|].
  intros H. apply andb_true_iff in H as [Hx Ha].
  destruct (is_nul x); [discriminate|]. now rewrite (IH Ha).
Qed.

Lemma c_string_app_cut (a b : list byte) :
  existsb is_nul a = true -> c_string (a ++ b) = c_string a.
Proof.
  induction a as [|x a IH]; simpl; [discriminate|].
  destruct (is_nul x); [reflexivity|]. simpl. intros H. now rewrite (IH H).
Qed.

Lemma c_string_shorter (a : list byte) :
  existsb is_nul a = true -> List.length (c_string a) < List.length a.
Proof.
  induction a as [|x a IH]; simpl; [discriminate|].
  destruct (is_nul x); simpl; [lia|]. intros H. specialize (IH H). lia.
Qed.

(** The bytes [nativeEncodeKey] hands to [NewStringUTF] when the encoder
    writes [out] at the start of the buffer: the C string that starts
    there. *)
Lemma string_handed_to_java (P : Platform) h k m t w out g :
  uintptr_of_jlong h <> 0%Z ->
  is_success (fst (event_new P w)) = true ->
  (forall encoder e buffer capacity w0,
     encoder_encode P encoder e buffer capacity w0
     = (GHOSTTY_SUCCESS, out ++ skipn (List.length out) buffer,
        List.length out)) ->
  (forall w0, stack_byte P w0 = g) ->
  out <> [] ->
  In (CNewStringUTF
        (c_string (out ++ skipn (List.length out) (map g (seq 0 256))))
        (fst (nativeEncodeKey P h k m t w)))
     (calls_since w (snd (nativeEncodeKey P h k m t w))).
Proof.
  intros Hhandle Hevent Hcore Hstack Hout.
  revert Hevent. destruct w as [evs cs]. unfold nativeEncodeKey.
  destruct (Z.eqb_spec (uintptr_of_jlong h) 0) as [E|_]; [contradiction|].
  run_bridge. destruct (event_new P _) as [[|e] ev]; run_bridge;
    intros Hevent; [|discriminate].
  destruct t as [s|]; run_bridge;
    [destruct (string_utf_chars P s _) as [chars|]; run_bridge|];
    rewrite Hcore, Hstack;
    (destruct out as [|b out']; [now contradiction Hout|]);
    cbn [List.length]; run_bridge; since_new cs; right; left; reflexivity.
Qed.

(** [nativeEncodeKey] does not end the encoded bytes with a NUL before it
    calls [NewStringUTF]: when the encoder writes its output [out],
    without NUL bytes, at the start of the buffer and nothing after it,
    the string built for Java is [out] followed by what the
    uninitialised array held behind it, up to the first NUL there (the
    statement is for arrays that do hold a NUL behind the output). *)
Theorem java_string_runs_into_stack (P : Platform) h k m t w out g
  (Hhandle : uintptr_of_jlong h <> 0%Z)
  (Hevent : is_success (fst (event_new P w)) = true)
  (Hcore : forall encoder e buffer capacity w0,
     encoder_encode P encoder e buffer capacity w0
     = (GHOSTTY_SUCCESS, out ++ skipn (List.length out) buffer,
        List.length out))
  (Hstack : forall w0, stack_byte P w0 = g)
  (Hlen : 0 < List.length out <= 256)
  (Hclean : forallb (fun x => negb (is_nul x)) out = true)
  (Hinside : existsb is_nul (skipn (List.length out) (map g (seq 0 256)))
             = true) :
  In (CNewStringUTF
        (out ++ c_string (skipn (List.length out) (map g (seq 0 256))))
        (fst (nativeEncodeKey P h k m t w)))
     (calls_since w (snd (nativeEncodeKey P h k m t w))).
Proof.
  rewrite <- c_string_app_clean by exact Hclean.
  apply string_handed_to_java; try assumption.
  intros ->. simpl in Hlen. lia.
Qed.

(** [NewStringUTF] stops at the first NUL: when the output of the
    encoder holds a NUL byte, the string built for Java ends before it
    and is shorter than the output. *)
Theorem java_string_cut_at_nul (P : Platform) h k m t w out g
  (Hhandle : uintptr_of_jlong h <> 0%Z)
  (Hevent : is_success (fst (event_new P w)) = true)
  (Hcore : forall encoder e buffer capacity w0,
     encoder_encode P encoder e buffer capacity w0
     = (GHOSTTY_SUCCESS, out ++ skipn (List.length out) buffer,
        List.length out))
  (Hstack : forall w0, stack_byte P w0 = g)
  (Hnul : existsb is_nul out = true) :
  In (CNewStringUTF (c_string out) (fst (nativeEncodeKey P h k m t w)))
     (calls_since w (snd (nativeEncodeKey P h k m t w)))
  /\ List.length (c_string out) < List.length out.
Proof.
  split; [|now apply c_string_shorter].
  rewrite <- (c_string_app_cut out
                (skipn (List.length out) (map g (seq 0 256)))) by exact Hnul.
  apply string_handed_to_java; try assumption.
  intros ->. discriminate.
Qed.

Lemma java_string_runs_into_stack_witness :
  uintptr_of_jlong 28672 <> 0%Z
  /\ (0 < List.length [ESC; "["; "A"]%byte <= 256)
  /\ In (CNewStringUTF [ESC; "["; "A"; "?"; "?"; "?"]%byte
           (Some [ESC; "["; "A"; "?"; "?"; "?"]%byte))
        (calls_since empty_world
           (snd (nativeEncodeKey
                   (writes [ESC; "["; "A"]%byte six_question_marks)
                   28672 code_arrow_up 0 None empty_world))).
Proof.
  assert (Hh : uintptr_of_jlong 28672 <> 0%Z) by discriminate.
  assert (Hlen : 0 < List.length [ESC; "["; "A"]%byte <= 256) by (simpl; lia).
  split; [exact Hh|]. split; [exact Hlen|].
  exact (@java_string_runs_into_stack
           (writes [ESC; "["; "A"]%byte six_question_marks)
           28672%Z code_arrow_up 0%Z None empty_world
           [ESC; "["; "A"]%byte six_question_marks
           Hh eq_refl (fun _ _ _ _ _ => eq_refl) (fun _ => eq_refl)
           Hlen eq_refl eq_refl).
Defined.

Lemma java_string_cut_at_nul_witness :
  existsb is_nul ["a"; NUL; "b"]%byte = true
  /\ In (CNewStringUTF ["a"]%byte (Some ["a"]%byte))
        (calls_since empty_world
           (snd (nativeEncodeKey (writes ["a"; NUL; "b"]%byte zeroed)
                   28672 0 0 None empty_world)))
  /\ List.length (c_string ["a"; NUL; "b"]%byte) < 3.
Proof.
  split; [reflexivity|].
  exact (@java_string_cut_at_nul (writes ["a"; NUL; "b"]%byte zeroed)
           28672%Z 0%Z 0%Z None empty_world ["a"; NUL; "b"]%byte zeroed
           ltac:(discriminate) eq_refl (fun _ _ _ _ _ => eq_refl)
           (fun _ => eq_refl) eq_refl).
Defined.

(** ** [nativeIsPasteSafe] *)

(** [nativeIsPasteSafe] gives back the string it takes, on every path;
    it touches no key event and no encoder and builds no Java string;
    and for a NULL string it makes no call at all. *)
Theorem nativeIsPasteSafe_protocol (P : Platform) data w :
  strings_protocol [] (chronological w (snd (nativeIsPasteSafe P data w)))
  = true
  /\ filter touches_core_objects
       (calls_since w (snd (nativeIsPasteSafe P data w))) = []
  /\ events (snd (nativeIsPasteSafe P data w)) = events w
  /\ nativeIsPasteSafe P None w = (JNI_FALSE, w).
Proof.
  destruct w as [evs cs]. unfold nativeIsPasteSafe, chronological.
  destruct data as [s|]; platform_cases;
    (split; [|split; [|split; reflexivity]]);
    first [since_new cs
          | rewrite (@calls_since_app (mkWorld evs cs) (mkWorld evs cs) []
                       eq_refl)];
    simpl; rewrite ?same_bytes_refl; reflexivity.
Qed.

(** [nativeIsPasteSafe] fails closed: it answers [JNI_TRUE] exactly when
    the classifier was called and found the bytes safe; a NULL string, a
    NULL from [GetStringUTFChars] and an unsafe verdict all give
    [JNI_FALSE]. *)
Theorem nativeIsPasteSafe_fails_closed (P : Platform) data w :
  (fst (nativeIsPasteSafe P data w) =? JNI_TRUE)%Z
  = existsb answered_safe (calls_since w (snd (nativeIsPasteSafe P data w))).
Proof.
  destruct w as [evs cs]. unfold nativeIsPasteSafe.
  destruct data as [s|]; platform_cases;
    first [since_new cs
          | rewrite (@calls_since_app (mkWorld evs cs) (mkWorld evs cs) []
                       eq_refl)];
    reflexivity.
Qed.

(** ** Create, then encode *)

(** The handle [nativeCreateKeyEncoder] returns for an encoder at a
    pointer other than NULL leads [nativeEncodeKey] to that encoder: the
    one call of the encoder is made with the pointer the core gave at
    creation. *)
Theorem create_then_encode_reaches_the_encoder (P : Platform) (w : World) p
  k m t
  (Hnew : encoder_new P w = (GHOSTTY_SUCCESS, p))
  (Hptr : (0 < p < 2 ^ 64)%Z)
  (Hevent : is_success
              (fst (event_new P (snd (nativeCreateKeyEncoder P w)))) = true) :
  let created := nativeCreateKeyEncoder P w in
  let encoded := nativeEncodeKey P (fst created) k m t (snd created) in
  map (fun call => fst (fst call))
    (submitted_events (calls_since (snd created) (snd encoded)))
  = [p].
Proof.
  intros created encoded. subst created encoded. revert Hevent.
  assert (Hcreated : nativeCreateKeyEncoder P w
            = (jlong_of_uintptr p,
               mkWorld (events w)
                 (CLog ANDROID_LOG_DEBUG "Created key encoder: %p"
                  :: CKeyEncoderNew GHOSTTY_SUCCESS p :: calls w))).
  { unfold nativeCreateKeyEncoder. run_bridge. rewrite Hnew. reflexivity. }
  rewrite Hcreated. cbn [fst snd].
  assert (Hback : uintptr_of_jlong (jlong_of_uintptr p) = p).
  { rewrite uintptr_of_jlong_of_uintptr. apply Z.mod_small. lia. }
  generalize (CLog ANDROID_LOG_DEBUG "Created key encoder: %p"
              :: CKeyEncoderNew GHOSTTY_SUCCESS p :: calls w).
  intros cs. generalize (events w). intros evs.
  unfold nativeEncodeKey. rewrite Hback.
  destruct (Z.eqb_spec p 0) as [E|_]; [lia|].
  run_bridge. destruct (event_new P _) as [[|e] ev]; run_bridge;
    intros Hevent; [|discriminate].
  destruct t as [s|]; platform_cases; since_new cs; reflexivity.
Qed.

Lemma create_then_encode_reaches_the_encoder_witness :
  encoder_new (quiet zeroed) empty_world = (GHOSTTY_SUCCESS, 28672%Z)
  /\ (0 < 28672 < 2 ^ 64)%Z
  /\ map (fun call => fst (fst call))
       (submitted_events
          (calls_since (snd (nativeCreateKeyEncoder (quiet zeroed) empty_world))
             (snd (nativeEncodeKey (quiet zeroed)
                     (fst (nativeCreateKeyEncoder (quiet zeroed) empty_world))
                     code_arrow_up 0 None
                     (snd (nativeCreateKeyEncoder (quiet zeroed) empty_world))))))
     = [28672%Z].
Proof.
  assert (Hptr : (0 < 28672 < 2 ^ 64)%Z) by (split; reflexivity).
  split; [reflexivity|]. split; [exact Hptr|].
  exact (@create_then_encode_reaches_the_encoder (quiet zeroed) empty_world
           28672%Z code_arrow_up 0%Z None eq_refl Hptr eq_refl).
Defined.
